(** * Memfault platform port of the Flipper Zero firmware

    A shallow embedding of [lib/memfault/memfault_platform_port.c], the glue
    layer between the Memfault SDK and the platform, and the properties of
    its callbacks.

    Conventions.  The target is a 32-bit Cortex-M4: [uint32_t], [size_t] and
    data pointers are 32 bits wide.  Such values are integers of [Z] kept in
    [0, 2^32), and every C operation that can leave that range is followed
    by its reduction modulo [2^32], written [to_uint32]. *)

From Stdlib Require Import ZArith List Bool Ascii String Lia.
From ITree Require Import ITree ITreeFacts Events.State Events.StateFacts.
From ITree Require Import Props.Leaf.
From Paco Require Import paco.
Import ListNotations.
Import ITreeNotations.

Local Open Scope itree_scope.

Local Open Scope Z_scope.

(** ** Machine integers *)

Definition UINT32_MAX : Z := 0xFFFFFFFF.

(** Conversion to [uint32_t]: reduction modulo [2^32]. *)
Definition to_uint32 (z : Z) : Z := z mod 2 ^ 32.

(** The values a [uint32_t] (and, on this target, a [size_t] or a pointer)
    can hold. *)
Definition is_uint32 (z : Z) : Prop := 0 <= z <= UINT32_MAX.

(** Modelled from the spec: the macro [MEMFAULT_MIN] comes from an SDK
    header that is not among the sources; the sanitizer uses it to "clamp
    the desired length to the remaining bytes", that is, the smaller of its
    two arguments, as the usual conditional expression. *)
Definition MEMFAULT_MIN (a b : Z) : Z := if a <? b then a else b.

(** ** Memory range sanitizer *)

(** The anonymous struct of the region table:
    [struct { uint32_t start_addr; size_t length; }]. *)
Module mem_region.
Record t : Set := make { start_addr : Z; length : Z }.
End mem_region.

(** The compiled-in table of valid memory banks. *)
Definition s_mcu_mem_regions : list mem_region.t :=
  [ mem_region.make 0x00000000 0xFFFFFFFF ].

(** The [for] loop of [memfault_platform_sanitize_address_range] over a
    region table, entries visited in index order.  [lower_addr] and
    [upper_addr] are [uint32_t] locals, so the sum that gives [upper_addr]
    wraps around, and so does the difference handed to [MEMFAULT_MIN]. *)
Fixpoint sanitize_scan (regions : list mem_region.t)
         (start_addr desired_size : Z) : Z :=
  match regions with
  | [] => 0
  | region :: rest =>
      let lower_addr := mem_region.start_addr region in
      let upper_addr := to_uint32 (lower_addr + mem_region.length region) in
      if (to_uint32 start_addr >=? lower_addr)
         && (to_uint32 start_addr <? upper_addr)
      then MEMFAULT_MIN desired_size
                        (to_uint32 (upper_addr - to_uint32 start_addr))
      else sanitize_scan rest start_addr desired_size
  end.

Definition memfault_platform_sanitize_address_range
           (start_addr desired_size : Z) : Z :=
  sanitize_scan s_mcu_mem_regions start_addr desired_size.

(** The sanitizer as the specification words it: the first region whose
    interval [[start, start + length)] holds the address decides, and the
    answer is the desired length clamped to what is left of that region;
    no region, no bytes.  Plain integers, no wrap-around. *)
Definition region_contains (addr : Z) (region : mem_region.t) : bool :=
  (mem_region.start_addr region <=? addr)
  && (addr <? mem_region.start_addr region + mem_region.length region).

Definition sanitize_spec (regions : list mem_region.t)
           (addr desired : Z) : Z :=
  match find (region_contains addr) regions with
  | Some region =>
      Z.min desired
            (mem_region.start_addr region + mem_region.length region - addr)
  | None => 0
  end.

(** A table entry the 32-bit arithmetic of the scan handles without
    wrapping: its start is a [uint32_t], its length is not negative and its
    exclusive upper bound is itself a [uint32_t]. *)
Definition region_fits (region : mem_region.t) : Prop :=
  0 <= mem_region.start_addr region
  /\ 0 <= mem_region.length region
  /\ mem_region.start_addr region + mem_region.length region <= UINT32_MAX.

(** ** Logging sink *)

(** Text is a list of characters.  A [const char *] to a string literal is
    a [string]; [chars] gives the characters [printf]'s [%s] prints for it. *)
Definition chars (s : string) : list ascii := list_ascii_of_string s.

Definition NUL : ascii := Ascii.zero.
Definition newline : ascii := ascii_of_nat 10.

(** The C string that starts a region of memory: its characters up to the
    first NUL, which is what [%s] prints for a [char] buffer. *)
Fixpoint c_str (mem : list ascii) : list ascii :=
  match mem with
  | [] => []
  | c :: rest => if Ascii.eqb c NUL then [] else c :: c_str rest
  end.

(** [vsnprintf(buf, size, fmt, args)] of the C library, by the bytes it
    stores from [buf[0]] on.  [rendered] stands for the characters [fmt]
    expands to with [args]; at most [size - 1] of them are stored, then the
    terminator, and nothing when [size] is 0. *)
Definition vsnprintf (size : nat) (rendered : list ascii) : list ascii :=
  match size with
  | O => []
  | S room => firstn room rendered ++ [NUL]
  end.

Definition MEMFAULT_DEBUG_LOG_BUFFER_SIZE_BYTES : nat := 128.

(** Modelled from the spec: [eMemfaultPlatformLogLevel] is declared in an
    SDK header that is not among the sources.  The four severities the
    logging sink names, in increasing order, numbered from 0 as a C enum
    without initialisers; a level is any integer, so that a value outside
    the four can be passed as well. *)
Definition eMemfaultPlatformLogLevel : Set := Z.
Definition kMemfaultPlatformLogLevel_Debug : eMemfaultPlatformLogLevel := 0.
Definition kMemfaultPlatformLogLevel_Info : eMemfaultPlatformLogLevel := 1.
Definition kMemfaultPlatformLogLevel_Warning : eMemfaultPlatformLogLevel := 2.
Definition kMemfaultPlatformLogLevel_Error : eMemfaultPlatformLogLevel := 3.

(** What the logging sink reads and writes: the file-level variable
    [s_min_log_level] (its initial value, the SDK's
    [MEMFAULT_RAM_LOGGER_DEFAULT_MIN_LOG_LEVEL], is not fixed here) and the
    characters written to the standard output so far. *)
Record Console : Set := {
  s_min_log_level : eMemfaultPlatformLogLevel;
  stdout : list ascii
}.

Definition s_log_prefix : string := "MFLT".

Definition prv_level_to_str (level : eMemfaultPlatformLogLevel) : string :=
  if level =? kMemfaultPlatformLogLevel_Debug then "DEBG"
  else if level =? kMemfaultPlatformLogLevel_Info then "INFO"
  else if level =? kMemfaultPlatformLogLevel_Warning then "WARN"
  else if level =? kMemfaultPlatformLogLevel_Error then "ERRO"
  else "????".

(** [printf]: the text is appended to the standard output. *)
Definition printf (text : list ascii) (st : Console) : Console :=
  {| s_min_log_level := s_min_log_level st; stdout := stdout st ++ text |}.

(** The text of [printf("%s:[%s] %s\n", prefix, level_name, log_buf)]. *)
Definition log_line (prefix level_name : string) (log_buf : list ascii)
  : list ascii :=
  chars prefix ++ chars ":[" ++ chars level_name ++ chars "] "
        ++ c_str log_buf ++ [newline].

Definition memfault_platform_log (level : eMemfaultPlatformLogLevel)
           (rendered : list ascii) (st : Console) : Console :=
  if level >=? s_min_log_level st then
    let level_name := prv_level_to_str level in
    let log_buf := vsnprintf MEMFAULT_DEBUG_LOG_BUFFER_SIZE_BYTES rendered in
    printf (log_line s_log_prefix level_name log_buf) st
  else st.

Definition memfault_platform_log_raw (rendered : list ascii) (st : Console)
  : Console :=
  let log_buf := vsnprintf MEMFAULT_DEBUG_LOG_BUFFER_SIZE_BYTES rendered in
  printf (c_str log_buf ++ [newline]) st.

(** ** Reboot reason provider *)

(** Modelled from the spec: [eMemfaultRebootReason], the reset-cause
    enumeration, is declared in an SDK header that is not among the
    sources.  Only the software-reset value is named by the port; the other
    constructors stand for causes a real implementation would report. *)
Inductive eMemfaultRebootReason : Set :=
| kMfltRebootReason_Unknown
| kMfltRebootReason_PowerOnReset
| kMfltRebootReason_PinReset
| kMfltRebootReason_SoftwareReset
| kMfltRebootReason_HardwareWatchdog
| kMfltRebootReason_BrownOutReset
| kMfltRebootReason_HardFault.

(** [sResetBootupInfo]: the raw reset-cause register ([uint32_t]) and the
    cause decoded from it. *)
Record sResetBootupInfo : Set := {
  reset_reason_reg : Z;
  reset_reason : eMemfaultRebootReason
}.

(** The hardware a reset-cause query could consult: the value of the MCU's
    reset-cause register, that is, why the device really reset. *)
Record Mcu : Set := { reset_cause_register : Z }.

(** [reset_info] is what the caller's record holds before the call; the
    result is what it holds after. *)
Definition memfault_reboot_reason_get (mcu : Mcu)
           (reset_info : sResetBootupInfo) : sResetBootupInfo :=
  {| reset_reason_reg := 0xDEADBEEF;
     reset_reason := kMfltRebootReason_SoftwareReset |}.

(** ** Device info provider *)

(** [sMemfaultDeviceInfo]: four pointers to constant strings. *)
Record sMemfaultDeviceInfo : Set := {
  device_serial : string;
  software_type : string;
  software_version : string;
  hardware_version : string
}.

Definition memfault_platform_get_device_info (info : sMemfaultDeviceInfo)
  : sMemfaultDeviceInfo :=
  {| device_serial := "DEMOSERIAL";
     software_type := "app-fw";
     software_version := "1.0.0";
     hardware_version := "dvt1" |}.

(** Regular expressions over characters, with classes given by their
    membership test, and matching of a whole text (the anchors [^] and [$])
    by derivatives. *)
Inductive regex : Type :=
| re_none
| re_empty
| re_class (member : ascii -> bool)
| re_seq (r1 r2 : regex)
| re_alt (r1 r2 : regex)
| re_star (r : regex).

Definition re_plus (r : regex) : regex := re_seq r (re_star r).

Fixpoint nullable (r : regex) : bool :=
  match r with
  | re_none => false
  | re_empty => true
  | re_class _ => false
  | re_seq r1 r2 => nullable r1 && nullable r2
  | re_alt r1 r2 => nullable r1 || nullable r2
  | re_star _ => true
  end.

Fixpoint derive (c : ascii) (r : regex) : regex :=
  match r with
  | re_none => re_none
  | re_empty => re_none
  | re_class member => if member c then re_empty else re_none
  | re_seq r1 r2 =>
      if nullable r1
      then re_alt (re_seq (derive c r1) r2) (derive c r2)
      else re_seq (derive c r1) r2
  | re_alt r1 r2 => re_alt (derive c r1) (derive c r2)
  | re_star r1 => re_seq (derive c r1) (re_star r1)
  end.

Fixpoint matches (r : regex) (text : list ascii) : bool :=
  match text with
  | [] => nullable r
  | c :: rest => matches (derive c r) rest
  end.

(** The texts a regular expression denotes. *)
Inductive lang : regex -> list ascii -> Prop :=
| lang_empty : lang re_empty []
| lang_class member c : member c = true -> lang (re_class member) [c]
| lang_seq r1 r2 text1 text2 :
    lang r1 text1 -> lang r2 text2 -> lang (re_seq r1 r2) (text1 ++ text2)
| lang_alt_l r1 r2 text : lang r1 text -> lang (re_alt r1 r2) text
| lang_alt_r r1 r2 text : lang r2 text -> lang (re_alt r1 r2) text
| lang_star_nil r : lang (re_star r) []
| lang_star_more r text1 text2 :
    lang r text1 -> lang (re_star r) text2 ->
    lang (re_star r) (text1 ++ text2).

Definition in_range (lo hi c : ascii) : bool :=
  ((N_of_ascii lo <=? N_of_ascii c) && (N_of_ascii c <=? N_of_ascii hi))%N.

Definition is_char (c0 c : ascii) : bool := Ascii.eqb c0 c.

(** The class [[-a-zA-Z0-9_]]. *)
Definition serial_class (c : ascii) : bool :=
  is_char "-" c || in_range "a" "z" c || in_range "A" "Z" c
  || in_range "0" "9" c || is_char "_" c.

(** The class [[-a-zA-Z0-9_.+]]. *)
Definition hardware_version_class (c : ascii) : bool :=
  serial_class c || is_char "." c || is_char "+" c.

(** [^[-a-zA-Z0-9_]+$], the valid device serials. *)
Definition device_serial_regex : regex := re_plus (re_class serial_class).

(** [^[-a-zA-Z0-9_.+]+$], the valid hardware versions. *)
Definition hardware_version_regex : regex :=
  re_plus (re_class hardware_version_class).

(** ** Time source *)

(** Modelled from the spec: [eMemfaultCurrentTimeType] and
    [sMemfaultCurrentTime] are declared in an SDK header that is not among
    the sources: a tagged union of which only the Unix-epoch-seconds variant
    is modelled, with a 64-bit count of seconds. *)
Inductive eMemfaultCurrentTimeType : Set :=
| kMemfaultCurrentTimeType_Unknown
| kMemfaultCurrentTimeType_UnixEpochTimeSec.

Record sMemfaultCurrentTimeInfo : Set := { unix_timestamp_secs : Z }.

Record sMemfaultCurrentTime : Set := {
  type : eMemfaultCurrentTimeType;
  info : sMemfaultCurrentTimeInfo
}.

(** The validity flag returned, and the record left in [*time]. *)
Definition memfault_platform_time_get_current (time : sMemfaultCurrentTime)
  : bool * sMemfaultCurrentTime :=
  (false,
   {| type := kMemfaultCurrentTimeType_UnixEpochTimeSec;
      info := {| unix_timestamp_secs := 0 |} |}).

(** ** Boot sequencer *)

(** The static buffers the port hands to the SDK by reference. *)
Inductive storage : Set :=
| s_reboot_tracking
| s_log_buf_storage
| s_event_storage.

(** [sizeof(s_event_storage)] and [MEMFAULT_ARRAY_SIZE(s_log_buf_storage)]. *)
Definition sizeof_s_event_storage : Z := 1024.
Definition array_size_s_log_buf_storage : Z := 512.

(** [sMemfaultMetricBootInfo], with its count of type [uint32_t]. *)
Record sMemfaultMetricBootInfo : Set := { unexpected_reboot_count : Z }.

(** Modelled from the spec: the SDK's entry points are declared in SDK
    headers that are not among the sources.  Each is an event whose answer
    is what the SDK returns: the event-storage boot returns the handle to
    hand on (a pointer, here its address), the crash count is a number, and
    a sub-init reports a status, an [int] with 0 for success (a [bool] for
    the log storage). [MEMFAULT_LOG_INFO] is the SDK's logging macro. *)
Variant sdkE : Type -> Type :=
| memfault_freertos_port_boot : sdkE unit
| memfault_reboot_tracking_boot
    (start_addr : storage) (bootup_info : sResetBootupInfo) : sdkE unit
| memfault_events_storage_boot (buf : storage) (buf_len : Z) : sdkE Z
| memfault_trace_event_boot (storage_impl : Z) : sdkE Z
| memfault_reboot_tracking_collect_reset_info (storage_impl : Z) : sdkE Z
| memfault_reboot_tracking_get_crash_count : sdkE Z
| memfault_metrics_boot
    (storage_impl : Z) (boot_info : sMemfaultMetricBootInfo) : sdkE Z
| memfault_log_boot (storage_buffer : storage) (buffer_len : Z) : sdkE bool
| memfault_build_info_dump : sdkE unit
| memfault_device_info_dump : sdkE unit
| MEMFAULT_LOG_INFO (message : string) : sdkE unit.

(** The local [reset_info] starts zeroed ([= {0}]); the first enumerator is
    the zero of the enumeration. *)
Definition reset_info_zero : sResetBootupInfo :=
  {| reset_reason_reg := 0; reset_reason := kMfltRebootReason_Unknown |}.

Definition memfault_platform_reboot_tracking_boot (mcu : Mcu)
  : itree sdkE unit :=
  let reset_info := memfault_reboot_reason_get mcu reset_info_zero in
  ITree.trigger (memfault_reboot_tracking_boot s_reboot_tracking reset_info).

(** [metrics_component] tells whether [MEMFAULT_COMPONENT_metrics_] is
    defined when the file is compiled.  Statuses of the sub-inits are
    received and dropped, as in the C statements that ignore them. *)
Definition memfault_platform_boot (mcu : Mcu) (metrics_component : bool)
  : itree sdkE Z :=
  ITree.trigger memfault_freertos_port_boot ;;
  memfault_platform_reboot_tracking_boot mcu ;;
  evt_storage <-
    ITree.trigger
      (memfault_events_storage_boot s_event_storage sizeof_s_event_storage) ;;
  ITree.trigger (memfault_trace_event_boot evt_storage) ;;
  ITree.trigger (memfault_reboot_tracking_collect_reset_info evt_storage) ;;
  (if metrics_component then
     crash_count <- ITree.trigger memfault_reboot_tracking_get_crash_count ;;
     let boot_info := {| unexpected_reboot_count := crash_count |} in
     ITree.trigger (memfault_metrics_boot evt_storage boot_info) ;;
     Ret tt
   else Ret tt) ;;
  ITree.trigger
    (memfault_log_boot s_log_buf_storage array_size_s_log_buf_storage) ;;
  ITree.trigger memfault_build_info_dump ;;
  ITree.trigger memfault_device_info_dump ;;
  ITree.trigger (MEMFAULT_LOG_INFO "Memfault Initialized!") ;;
  Ret 0.

(** One call into the SDK, with its arguments. *)
Definition sdk_call : Type := { T : Type & sdkE T }.

Definition call {T : Type} (e : sdkE T) : sdk_call := existT sdkE T e.

(** An SDK, by what it answers to each call.  No entry point is called
    twice during boot, so an answer need not depend on the calls before. *)
Definition Sdk : Type := forall T : Type, sdkE T -> T.

(** Running against an SDK: each call is appended to the log of calls made
    so far and answered by the SDK. *)
Definition handle_sdk (sdk : Sdk)
  : sdkE ~> Monads.stateT (list sdk_call) (itree void1) :=
  fun T e log => Ret (log ++ [call e], sdk T e).

Definition run_boot (sdk : Sdk) (mcu : Mcu) (metrics_component : bool)
  : itree void1 (list sdk_call * Z) :=
  interp_state (handle_sdk sdk) (memfault_platform_boot mcu metrics_component)
               [].

(** The calls of a boot in which the SDK answers as [sdk], in the order of
    the specification's steps (1) to (7). *)
Definition boot_calls (sdk : Sdk) (metrics_component : bool)
  : list sdk_call :=
  let evt_storage :=
    sdk _ (memfault_events_storage_boot s_event_storage 1024) in
  let crash_count := sdk _ memfault_reboot_tracking_get_crash_count in
  [ call memfault_freertos_port_boot ]
  ++ [ call (memfault_reboot_tracking_boot
               s_reboot_tracking
               {| reset_reason_reg := 0xDEADBEEF;
                  reset_reason := kMfltRebootReason_SoftwareReset |}) ]
  ++ [ call (memfault_events_storage_boot s_event_storage 1024);
       call (memfault_trace_event_boot evt_storage) ]
  ++ [ call (memfault_reboot_tracking_collect_reset_info evt_storage) ]
  ++ (if metrics_component
      then [ call memfault_reboot_tracking_get_crash_count;
             call (memfault_metrics_boot
                     evt_storage
                     {| unexpected_reboot_count := crash_count |}) ]
      else [])
  ++ [ call (memfault_log_boot s_log_buf_storage 512) ]
  ++ [ call memfault_build_info_dump;
       call memfault_device_info_dump;
       call (MEMFAULT_LOG_INFO "Memfault Initialized!") ].

(** An SDK in which everything succeeds, and one whose trace-event
    subsystem fails to boot with status [-1]. *)
Definition sdk_all_ok : Sdk :=
  fun T e =>
    match e in sdkE T return T with
    | memfault_freertos_port_boot => tt
    | memfault_reboot_tracking_boot _ _ => tt
    | memfault_events_storage_boot _ _ => 0x20001000
    | memfault_trace_event_boot _ => 0
    | memfault_reboot_tracking_collect_reset_info _ => 0
    | memfault_reboot_tracking_get_crash_count => 0
    | memfault_metrics_boot _ _ => 0
    | memfault_log_boot _ _ => true
    | memfault_build_info_dump => tt
    | memfault_device_info_dump => tt
    | MEMFAULT_LOG_INFO _ => tt
    end.

Definition sdk_trace_event_fails : Sdk :=
  fun T e =>
    match e in sdkE T return T with
    | memfault_trace_event_boot _ => -1
    | e' => sdk_all_ok _ e'
    end.

(** ** Post-crash reboot *)

(** [while (cond) body]: an iteration tests the condition, and either runs
    the body and goes round again, or leaves the loop. *)
Definition while (E : Type -> Type) (cond : itree E bool)
           (body : itree E unit) : itree E unit :=
  ITree.iter
    (fun _ : unit =>
       continue <- cond ;;
       if continue : bool
       then body ;; Ret (inl tt)
       else Ret (inr tt))
    tt.

(** What a reboot routine can ask of the platform: the system reset,
    [NVIC_SystemReset()].  A reset does not come back to the program, so
    the event has no answer. *)
Variant platformE : Type -> Type :=
| NVIC_SystemReset : platformE Empty_set.

(** The body is the loop [while (1) { }] alone: the cleanup and the call
    [NVIC_SystemReset()] are comments in the source.  Leaving the loop would
    return to the caller. *)
Definition memfault_platform_reboot (E : Type -> Type) : itree E unit :=
  while E (Ret true) (Ret tt).

(** ** Definitions for the further properties *)

(** A table entry as the struct can hold it: both fields are 32-bit
    values, and nothing is asked of their sum. *)
Definition region_uint32 (region : mem_region.t) : Prop :=
  is_uint32 (mem_region.start_addr region)
  /\ is_uint32 (mem_region.length region).

(** The local array [log_buf] after [written] has been stored from its
    first byte on: the bytes beyond keep what the stack held. *)
Definition stored (written log_buf : list ascii) : list ascii :=
  written ++ skipn (List.length written) log_buf.

(** A call of one of the two logging entry points, and a sequence of such
    calls run from a state of the console. *)
Inductive log_request : Set :=
| log_at (level : eMemfaultPlatformLogLevel) (rendered : list ascii)
| log_raw (rendered : list ascii).

Definition serve_log_request (st : Console) (request : log_request)
  : Console :=
  match request with
  | log_at level rendered => memfault_platform_log level rendered st
  | log_raw rendered => memfault_platform_log_raw rendered st
  end.

Definition serve_log_requests (requests : list log_request) (st : Console)
  : Console :=
  fold_left serve_log_request requests st.

(** Two calls of the boot entry point in a row, with both results. *)
Definition boot_twice (mcu : Mcu) (metrics_component : bool)
  : itree sdkE (Z * Z) :=
  first <- memfault_platform_boot mcu metrics_component ;;
  second <- memfault_platform_boot mcu metrics_component ;;
  Ret (first, second).

(** An SDK that keeps state: its answer to a call may depend on the calls
    made before, as it must be allowed to when an entry point is called a
    second time. *)
Definition StatefulSdk : Type := list sdk_call -> forall T : Type, sdkE T -> T.

Definition handle_stateful_sdk (sdk : StatefulSdk)
  : sdkE ~> Monads.stateT (list sdk_call) (itree void1) :=
  fun T e log => Ret (log ++ [call e], sdk log T e).

(** The calls of one boot that starts after the calls [log], against an SDK
    that keeps state: the event storage handle and the crash count are the
    answers the SDK gives at that point. *)
Definition boot_calls_after (sdk : StatefulSdk) (log : list sdk_call)
           (metrics_component : bool) : list sdk_call :=
  let reset_info :=
    {| reset_reason_reg := 0xDEADBEEF;
       reset_reason := kMfltRebootReason_SoftwareReset |} in
  let to_storage_boot :=
    [ call memfault_freertos_port_boot;
      call (memfault_reboot_tracking_boot s_reboot_tracking reset_info) ] in
  let evt_storage :=
    sdk (log ++ to_storage_boot) _
        (memfault_events_storage_boot s_event_storage 1024) in
  let to_reset_info :=
    to_storage_boot
    ++ [ call (memfault_events_storage_boot s_event_storage 1024);
         call (memfault_trace_event_boot evt_storage);
         call (memfault_reboot_tracking_collect_reset_info evt_storage) ] in
  let crash_count :=
    sdk (log ++ to_reset_info) _ memfault_reboot_tracking_get_crash_count in
  to_reset_info
  ++ (if metrics_component
      then [ call memfault_reboot_tracking_get_crash_count;
             call (memfault_metrics_boot
                     evt_storage
                     {| unexpected_reboot_count := crash_count |}) ]
      else [])
  ++ [ call (memfault_log_boot s_log_buf_storage 512);
       call memfault_build_info_dump;
       call memfault_device_info_dump;
       call (MEMFAULT_LOG_INFO "Memfault Initialized!") ].

(** * Properties *)

(** ** Machine integers *)

Lemma to_uint32_small (z : Z) : is_uint32 z -> to_uint32 z = z.
Proof.
  unfold is_uint32, UINT32_MAX, to_uint32. intros Hz.
  apply Z.mod_small. lia.
Qed.

Lemma MEMFAULT_MIN_min (a b : Z) : MEMFAULT_MIN a b = Z.min a b.
Proof.
  unfold MEMFAULT_MIN. destruct (Z.ltb_spec a b); lia.
Qed.

(** ** Memory range sanitizer *)

Section Sanitizer.

Variables start_addr desired_size : Z.
Hypothesis start_addr_uint32 : is_uint32 start_addr.

(** On an entry that fits, the 32-bit test of the loop is the interval test
    of the specification. *)
Lemma scan_test_contains (region : mem_region.t) :
  region_fits region ->
  (to_uint32 start_addr >=? mem_region.start_addr region)
  && (to_uint32 start_addr
      <? to_uint32 (mem_region.start_addr region + mem_region.length region))
  = region_contains start_addr region.
Proof.
  intros (Hs & Hl & Hu). unfold region_contains.
  rewrite (to_uint32_small start_addr) by assumption.
  rewrite to_uint32_small by (unfold is_uint32; lia).
  rewrite Z.geb_leb. reflexivity.
Qed.

(** And the bytes left in it are computed without wrapping. *)
Lemma scan_remaining (region : mem_region.t) :
  region_fits region ->
  region_contains start_addr region = true ->
  to_uint32
    (to_uint32 (mem_region.start_addr region + mem_region.length region)
     - to_uint32 start_addr)
  = mem_region.start_addr region + mem_region.length region - start_addr.
Proof.
  intros (Hs & Hl & Hu) Hin. unfold region_contains in Hin.
  apply andb_true_iff in Hin. destruct Hin as [Hlo Hhi].
  apply Z.leb_le in Hlo. apply Z.ltb_lt in Hhi.
  rewrite (to_uint32_small start_addr) by assumption.
  rewrite (to_uint32_small (_ + _)) by (unfold is_uint32; lia).
  apply to_uint32_small. unfold is_uint32 in *. lia.
Qed.

(** The scan of a table whose entries all fit computes what the
    specification describes. *)
Lemma sanitize_scan_spec (regions : list mem_region.t) :
  Forall region_fits regions ->
  sanitize_scan regions start_addr desired_size
  = sanitize_spec regions start_addr desired_size.
Proof.
  unfold sanitize_spec.
  induction 1 as [| region rest Hfit _ IH]; [reflexivity |].
  cbn [sanitize_scan find].
  rewrite scan_test_contains by assumption.
  destruct (region_contains start_addr region) eqn:Hin.
  - rewrite scan_remaining by assumption. apply MEMFAULT_MIN_min.
  - exact IH.
Qed.

(** The specification's answer lies between 0 and the desired length. *)
Lemma sanitize_spec_bounds (regions : list mem_region.t) :
  0 <= desired_size ->
  0 <= sanitize_spec regions start_addr desired_size <= desired_size.
Proof.
  intros Hd. unfold sanitize_spec.
  destruct (find (region_contains start_addr) regions) as [region |] eqn:Hf;
    [| lia].
  apply find_some in Hf. destruct Hf as [_ Hin].
  unfold region_contains in Hin. apply andb_true_iff in Hin.
  destruct Hin as [_ Hhi]. apply Z.ltb_lt in Hhi. lia.
Qed.

End Sanitizer.

Lemma s_mcu_mem_regions_fit : Forall region_fits s_mcu_mem_regions.
Proof.
  repeat constructor; cbn; unfold UINT32_MAX; lia.
Qed.

(** C1: for every 32-bit start address and desired length, the sanitizer
    returns a byte count between 0 and the desired length, and that count is
    the one the specification describes: the first region of the table
    whose interval [[start, start + length)] contains the address gives the
    desired length clamped to the bytes left in that region, and no such
    region gives 0. *)
Theorem sanitize_address_range_clamps (start_addr desired_size : Z) :
  is_uint32 start_addr ->
  is_uint32 desired_size ->
  0 <= memfault_platform_sanitize_address_range start_addr desired_size
    <= desired_size
  /\ memfault_platform_sanitize_address_range start_addr desired_size
     = match find (region_contains start_addr) s_mcu_mem_regions with
       | Some region =>
           Z.min desired_size
                 (mem_region.start_addr region + mem_region.length region
                  - start_addr)
       | None => 0
       end.
Proof.
  intros Ha Hd. unfold memfault_platform_sanitize_address_range.
  rewrite sanitize_scan_spec by (assumption || apply s_mcu_mem_regions_fit).
  split; [| reflexivity].
  apply sanitize_spec_bounds. unfold is_uint32 in Hd. lia.
Qed.

Lemma sanitize_address_range_clamps_witness :
  is_uint32 0x20000F00 /\ is_uint32 0x200
  /\ 0 <= memfault_platform_sanitize_address_range 0x20000F00 0x200 <= 0x200.
Proof.
  assert (Ha : is_uint32 0x20000F00) by (unfold is_uint32, UINT32_MAX; lia).
  assert (Hd : is_uint32 0x200) by (unfold is_uint32, UINT32_MAX; lia).
  split; [exact Ha | split; [exact Hd |]].
  exact (proj1 (sanitize_address_range_clamps 0x20000F00 0x200 Ha Hd)).
Defined.

(** C5: over the region table [[{0x1000, 0x100}]], the scan answers
    [0x80] for the address [0x1080] and the length [0x200] (clamped to the
    end of the region) and [0] for the address [0x2000] and the length
    [0x10]. *)
Theorem sanitize_scan_example_table :
  sanitize_scan [mem_region.make 0x1000 0x100] 0x1080 0x200 = 0x80
  /\ sanitize_scan [mem_region.make 0x1000 0x100] 0x2000 0x10 = 0.
Proof.
  split; vm_compute; reflexivity.
Qed.

(** C10: with the compiled-in table [{0x00000000, 0xFFFFFFFF}] the
    sanitizer returns [min(desired_size, 0xFFFFFFFF - addr)] for every
    32-bit address below [0xFFFFFFFF], and 0 for the address [0xFFFFFFFF],
    the last byte of the address space: the exclusive upper bound of the
    region is [0x00000000 + 0xFFFFFFFF]. *)
Theorem sanitize_address_range_compiled_table (addr desired_size : Z) :
  is_uint32 addr ->
  is_uint32 desired_size ->
  memfault_platform_sanitize_address_range addr desired_size
  = if addr <? 0xFFFFFFFF then Z.min desired_size (0xFFFFFFFF - addr) else 0.
Proof.
  intros Ha Hd. unfold memfault_platform_sanitize_address_range.
  rewrite sanitize_scan_spec by (assumption || apply s_mcu_mem_regions_fit).
  unfold sanitize_spec, s_mcu_mem_regions, region_contains. cbn [find].
  cbn [mem_region.start_addr mem_region.length].
  unfold is_uint32 in Ha. replace (0 <=? addr) with true by (symmetry; apply Z.leb_le; lia).
  cbn [andb]. change (0 + 0xFFFFFFFF) with 0xFFFFFFFF.
  destruct (addr <? 0xFFFFFFFF); reflexivity.
Qed.

Lemma sanitize_address_range_compiled_table_witness :
  is_uint32 0xFFFFFFF0 /\ is_uint32 0x100
  /\ memfault_platform_sanitize_address_range 0xFFFFFFF0 0x100 = 0xF.
Proof.
  assert (Ha : is_uint32 0xFFFFFFF0) by (unfold is_uint32, UINT32_MAX; lia).
  assert (Hd : is_uint32 0x100) by (unfold is_uint32, UINT32_MAX; lia).
  split; [exact Ha | split; [exact Hd |]].
  exact (sanitize_address_range_compiled_table 0xFFFFFFF0 0x100 Ha Hd).
Defined.

(** ** Logging sink *)

Section CStrings.

Implicit Types mem text : list ascii.

(** Reading a C string stops at the terminator, whatever follows it. *)
Lemma c_str_terminated text mem :
  c_str (text ++ NUL :: mem) = c_str text.
Proof.
  induction text as [| c text IH]; cbn.
  - reflexivity.
  - destruct (Ascii.eqb c NUL); [reflexivity | now rewrite IH].
Qed.

(** Truncating and reading commute. *)
Lemma c_str_firstn n text :
  c_str (firstn n text) = firstn n (c_str text).
Proof.
  revert text. induction n as [| n IH]; intros [| c text]; cbn; trivial.
  destruct (Ascii.eqb c NUL); cbn; [reflexivity | now rewrite IH].
Qed.

(** A text without NUL reads back whole. *)
Lemma c_str_no_nul text : ~ In NUL text -> c_str text = text.
Proof.
  induction text as [| c text IH]; cbn; intros Hnul; [reflexivity |].
  destruct (Ascii.eqb_spec c NUL) as [-> | _].
  - exfalso. apply Hnul. now left.
  - rewrite IH; [reflexivity | intros Hin; apply Hnul; now right].
Qed.

Lemma c_str_length text : (List.length (c_str text) <= List.length text)%nat.
Proof.
  induction text as [| c text IH]; cbn; [lia |].
  destruct (Ascii.eqb c NUL); cbn; lia.
Qed.

(** [vsnprintf] never stores more than [size] bytes. *)
Lemma vsnprintf_length size text :
  (List.length (vsnprintf size text) <= size)%nat.
Proof.
  destruct size as [| room]; cbn; [lia |].
  rewrite length_app, length_firstn. cbn. lia.
Qed.

(** What [%s] prints for a buffer [vsnprintf] has filled, whatever the rest
    of the buffer holds: the start of the rendered message. *)
Lemma c_str_vsnprintf room text mem :
  c_str (vsnprintf (S room) text ++ mem) = firstn room (c_str text).
Proof.
  unfold vsnprintf. rewrite <- app_assoc. cbn [app].
  rewrite c_str_terminated. apply c_str_firstn.
Qed.

End CStrings.

(** No tag holds a line break. *)
Lemma prv_level_to_str_one_line (level : eMemfaultPlatformLogLevel) :
  count_occ ascii_dec (chars (prv_level_to_str level)) newline = 0%nat.
Proof.
  unfold prv_level_to_str.
  repeat match goal with |- context [if ?b then _ else _] => destruct b end;
    reflexivity.
Qed.

(** C3, as the code has it: at a severity at or above the configured
    minimum, [memfault_platform_log] appends to the output the prefix
    [MFLT], the level tag in brackets ([DEBG], [INFO], [WARN], [ERRO], and
    [????] for any other level), a space, the rendered message cut to the
    127 characters that fit the 128-byte buffer beside the terminator, and
    one line break.  The text appended holds one line break more than the
    message printed: it is exactly one line when that message holds no line
    break, and the line breaks of the message are copied through otherwise.
    The buffer is never written beyond its 128 bytes, and the minimum level
    is left as it was. *)
Theorem memfault_platform_log_emits (level : eMemfaultPlatformLogLevel)
        (rendered : list ascii) (st : Console) :
  s_min_log_level st <= level ->
  let st' := memfault_platform_log level rendered st in
  let tag :=
    match level with
    | 0 => "DEBG"
    | 1 => "INFO"
    | 2 => "WARN"
    | 3 => "ERRO"
    | _ => "????"
    end%string in
  let message := firstn 127 (c_str rendered) in
  let line :=
    chars "MFLT" ++ chars ":[" ++ chars tag ++ chars "] " ++ message
          ++ [newline] in
  stdout st' = stdout st ++ line
  /\ s_min_log_level st' = s_min_log_level st
  /\ List.length message = Nat.min 127 (List.length (c_str rendered))
  /\ (List.length (vsnprintf MEMFAULT_DEBUG_LOG_BUFFER_SIZE_BYTES rendered)
      <= 128)%nat
  /\ count_occ ascii_dec line newline
     = S (count_occ ascii_dec message newline)
  /\ (~ In newline message -> count_occ ascii_dec line newline = 1%nat).
Proof.
  intros Hlevel st' tag message line.
  assert (Htag : prv_level_to_str level = tag).
  { subst tag. unfold prv_level_to_str.
    destruct level as [| [p | p |] | p]; try reflexivity;
      destruct p as [p | p |]; reflexivity. }
  assert (Hline : log_line s_log_prefix (prv_level_to_str level)
                    (vsnprintf MEMFAULT_DEBUG_LOG_BUFFER_SIZE_BYTES rendered)
                  = line).
  { unfold log_line, MEMFAULT_DEBUG_LOG_BUFFER_SIZE_BYTES.
    rewrite <- (app_nil_r (vsnprintf 128 rendered)), c_str_vsnprintf.
    rewrite Htag. reflexivity. }
  assert (Hst' : st' = printf line st).
  { subst st'. unfold memfault_platform_log.
    replace (level >=? s_min_log_level st) with true
      by (symmetry; rewrite Z.geb_leb; apply Z.leb_le; exact Hlevel).
    cbv zeta. now rewrite Hline. }
  assert (Hbreaks : count_occ ascii_dec line newline
                    = S (count_occ ascii_dec message newline)).
  { subst line. rewrite !count_occ_app, <- Htag, prv_level_to_str_one_line.
    cbn. lia. }
  split; [now rewrite Hst' |]. split; [now rewrite Hst' |].
  split; [apply length_firstn |]. split; [apply vsnprintf_length |].
  split; [exact Hbreaks |].
  intros Hnone. rewrite Hbreaks.
  now rewrite (proj1 (count_occ_not_In ascii_dec message newline) Hnone).
Qed.

Lemma memfault_platform_log_emits_witness :
  let st := {| s_min_log_level := 1; stdout := chars "boot" |} in
  let rendered := repeat "x"%char 200 in
  s_min_log_level st <= 2
  /\ stdout (memfault_platform_log 2 rendered st)
     = chars "boot" ++ chars "MFLT:[WARN] " ++ repeat "x"%char 127
             ++ [newline].
Proof.
  intros st rendered.
  assert (Hlevel : s_min_log_level st <= 2) by (cbn; lia).
  split; [exact Hlevel |].
  destruct (memfault_platform_log_emits 2 rendered st Hlevel) as [Hout _].
  rewrite Hout. vm_compute. reflexivity.
Defined.

(** C3, as stated, fails: a call at the minimum level whose rendered
    message is three short lines appends three lines, not exactly one: the
    line breaks of the message are copied to the output. *)
Lemma memfault_platform_log_three_lines :
  let st := {| s_min_log_level := 1; stdout := [] |} in
  let rendered :=
    chars "a" ++ [newline] ++ chars "b" ++ [newline] ++ chars "c" in
  s_min_log_level st <= 1
  /\ stdout (memfault_platform_log 1 rendered st)
     = chars "MFLT:[INFO] a" ++ [newline] ++ chars "b" ++ [newline]
             ++ chars "c" ++ [newline]
  /\ count_occ ascii_dec (stdout (memfault_platform_log 1 rendered st))
               newline
     = 3%nat
  /\ count_occ ascii_dec (stdout (memfault_platform_log 1 rendered st))
               newline
     <> 1%nat.
Proof.
  intros st rendered.
  split; [cbn; lia |]. split; [vm_compute; reflexivity |].
  split; [vm_compute; reflexivity |].
  vm_compute. discriminate.
Qed.

(** C4: at a severity strictly below the configured minimum,
    [memfault_platform_log] writes nothing and changes nothing: the output
    and the minimum level are what they were. *)
Theorem memfault_platform_log_filtered (level : eMemfaultPlatformLogLevel)
        (rendered : list ascii) (st : Console) :
  level < s_min_log_level st ->
  memfault_platform_log level rendered st = st
  /\ stdout (memfault_platform_log level rendered st) = stdout st.
Proof.
  intros Hlevel. unfold memfault_platform_log.
  replace (level >=? s_min_log_level st) with false; [now split |].
  symmetry. rewrite Z.geb_leb. apply Z.leb_gt. exact Hlevel.
Qed.

Lemma memfault_platform_log_filtered_witness :
  let st := {| s_min_log_level := 1; stdout := chars "boot" |} in
  0 < s_min_log_level st
  /\ memfault_platform_log 0 (chars "heartbeat") st = st.
Proof.
  intros st.
  assert (Hlevel : 0 < s_min_log_level st) by (cbn; lia).
  split; [exact Hlevel |].
  exact (proj1 (memfault_platform_log_filtered 0 (chars "heartbeat") st Hlevel)).
Defined.

(** ** Regular expressions *)

Create HintDb regex.
#[local] Hint Constructors lang : regex.

Lemma nullable_lang (r : regex) : nullable r = true <-> lang r [].
Proof.
  induction r as [| | member | r1 IH1 r2 IH2 | r1 IH1 r2 IH2 | r IH]; cbn.
  - split; [discriminate | inversion 1].
  - split; auto with regex.
  - split; [discriminate | inversion 1].
  - rewrite andb_true_iff, IH1, IH2. split.
    + intros [H1 H2]. change (lang (re_seq r1 r2) ([] ++ [])). auto with regex.
    + inversion 1 as [| | ? ? t1 t2 H1 H2 Hr Ht | | | |]; subst.
      apply app_eq_nil in Ht. destruct Ht; subst. auto.
  - rewrite orb_true_iff, IH1, IH2. split.
    + intros [H | H]; auto with regex.
    + inversion 1; subst; auto.
  - split; auto with regex.
Qed.

(** A non-empty text of a starred expression starts with a non-empty text
    of the expression. *)
Lemma lang_star_cons_inv (r : regex) (c : ascii) (text : list ascii) :
  lang (re_star r) (c :: text) ->
  exists text1 text2,
    text = text1 ++ text2 /\ lang r (c :: text1) /\ lang (re_star r) text2.
Proof.
  intros H. remember (re_star r) as rs eqn:Hrs.
  remember (c :: text) as full eqn:Hfull.
  revert Hrs Hfull.
  induction H as [| | | | | | r' t1 t2 H1 _ H2 IH2]; try discriminate.
  intros Hrs Hfull. injection Hrs as ->.
  destruct t1 as [| c1 t1]; cbn in Hfull.
  - apply IH2; [reflexivity | assumption].
  - injection Hfull as -> <-. exists t1, t2. auto.
Qed.

Lemma derive_lang (c : ascii) (r : regex) (text : list ascii) :
  lang (derive c r) text <-> lang r (c :: text).
Proof.
  revert text.
  induction r as [| | member | r1 IH1 r2 IH2 | r1 IH1 r2 IH2 | r IH];
    intros text; cbn.
  - split; inversion 1.
  - split; inversion 1.
  - destruct (member c) eqn:Hc; split; inversion 1; subst.
    + now constructor.
    + constructor.
    + congruence.
  - assert (Hseq : lang (re_seq (derive c r1) r2) text
                   -> lang (re_seq r1 r2) (c :: text)).
    { inversion 1 as [| | ? ? t1 t2 H1 H2 | | | |]; subst.
      apply IH1 in H1. change (lang (re_seq r1 r2) ((c :: t1) ++ t2)).
      auto with regex. }
    assert (Hinv : lang (re_seq r1 r2) (c :: text)
                   -> lang (re_seq (derive c r1) r2) text
                      \/ (lang r1 [] /\ lang r2 (c :: text))).
    { inversion 1 as [| | ? ? t1 t2 H1 H2 Hr Ht | | | |]; subst.
      destruct t1 as [| c1 t1]; cbn in Ht.
      - subst t2. right. auto.
      - injection Ht as -> <-. left. apply IH1 in H1. auto with regex. }
    destruct (nullable r1) eqn:Hn; split.
    + inversion 1; subst; [auto |].
      apply nullable_lang in Hn. change (lang (re_seq r1 r2) ([] ++ c :: text)).
      constructor; [assumption | now apply IH2].
    + intros H. destruct (Hinv H) as [H1 | [_ H2]].
      * now apply lang_alt_l.
      * apply lang_alt_r. now apply IH2.
    + assumption.
    + intros H. destruct (Hinv H) as [H1 | [H1 _]]; [assumption |].
      apply nullable_lang in H1. congruence.
  - split; inversion 1; subst.
    + apply lang_alt_l. now apply IH1.
    + apply lang_alt_r. now apply IH2.
    + apply lang_alt_l. now apply IH1.
    + apply lang_alt_r. now apply IH2.
  - split.
    + inversion 1 as [| | ? ? t1 t2 H1 H2 | | | |]; subst.
      apply IH in H1. change (lang (re_star r) ((c :: t1) ++ t2)).
      auto with regex.
    + intros H. apply lang_star_cons_inv in H.
      destruct H as (t1 & t2 & -> & H1 & H2).
      constructor; [now apply IH | assumption].
Qed.

(** Matching by derivatives decides membership. *)
Lemma matches_lang (r : regex) (text : list ascii) :
  matches r text = true <-> lang r text.
Proof.
  revert r. induction text as [| c text IH]; intros r; cbn.
  - apply nullable_lang.
  - rewrite IH. apply derive_lang.
Qed.

(** One or more characters of a class: the text is not empty and all of
    its characters are in the class. *)
Lemma lang_star_class (member : ascii -> bool) (text : list ascii) :
  lang (re_star (re_class member)) text <-> forallb member text = true.
Proof.
  split.
  - intros H. remember (re_star (re_class member)) as rs eqn:Hrs.
    induction H as [| | | | | | r t1 t2 H1 _ _ IH2]; try discriminate.
    + reflexivity.
    + injection Hrs as ->. inversion H1; subst. cbn.
      rewrite IH2 by reflexivity. now rewrite andb_true_r.
  - induction text as [| c text IH]; cbn; intros H.
    + constructor.
    + apply andb_true_iff in H. destruct H as [Hc Ht].
      change (lang (re_star (re_class member)) ([c] ++ text)).
      constructor; [now constructor | auto].
Qed.

Lemma lang_plus_class (member : ascii -> bool) (text : list ascii) :
  lang (re_plus (re_class member)) text
  <-> text <> [] /\ forallb member text = true.
Proof.
  unfold re_plus. split.
  - inversion 1 as [| | ? ? t1 t2 H1 H2 | | | |]; subst.
    inversion H1; subst. apply lang_star_class in H2. cbn.
    split; [discriminate | now rewrite H2, andb_true_r].
  - intros [Hne Hall]. destruct text as [| c text]; [congruence |].
    cbn in Hall. apply andb_true_iff in Hall. destruct Hall as [Hc Ht].
    change (lang (re_seq (re_class member) (re_star (re_class member)))
                 ([c] ++ text)).
    constructor; [now constructor | now apply lang_star_class].
Qed.

(** ** Device info provider *)

(** C8: [memfault_platform_get_device_info] is total and, whatever the
    caller's record held, leaves all four fields set, none of them empty;
    the device serial is a text of [^[-a-zA-Z0-9_]+$] and the hardware
    version a text of [^[-a-zA-Z0-9_.+]+$]. *)
Theorem memfault_platform_get_device_info_valid (info : sMemfaultDeviceInfo) :
  let info' := memfault_platform_get_device_info info in
  info' = {| device_serial := "DEMOSERIAL";
             software_type := "app-fw";
             software_version := "1.0.0";
             hardware_version := "dvt1" |}
  /\ Forall (fun field => chars field <> [])
            [ device_serial info'; software_type info';
              software_version info'; hardware_version info' ]
  /\ lang device_serial_regex (chars (device_serial info'))
  /\ lang hardware_version_regex (chars (hardware_version info')).
Proof.
  cbv zeta. unfold memfault_platform_get_device_info.
  cbn [device_serial software_type software_version hardware_version].
  split; [reflexivity |]. split.
  - repeat constructor; discriminate.
  - split; apply matches_lang; vm_compute; reflexivity.
Qed.

(** ** Time source *)

(** C6: every call of [memfault_platform_time_get_current] returns the
    validity flag false, whatever the caller's record held; the record it
    leaves is the Unix-epoch variant with 0 seconds, a value that is not to
    be read as a time. *)
Theorem memfault_platform_time_get_current_invalid
        (time : sMemfaultCurrentTime) :
  fst (memfault_platform_time_get_current time) = false
  /\ snd (memfault_platform_time_get_current time)
     = {| type := kMemfaultCurrentTimeType_UnixEpochTimeSec;
          info := {| unix_timestamp_secs := 0 |} |}.
Proof.
  split; reflexivity.
Qed.

(** ** Reboot reason provider *)

(** C7: whatever the reset-cause register of the MCU holds and whatever the
    caller's record held, [memfault_reboot_reason_get] leaves the same
    record: the software-reset cause and the raw value [0xDEADBEEF]. *)
Theorem memfault_reboot_reason_get_fixed (mcu : Mcu)
        (reset_info : sResetBootupInfo) :
  reset_reason (memfault_reboot_reason_get mcu reset_info)
  = kMfltRebootReason_SoftwareReset
  /\ reset_reason_reg (memfault_reboot_reason_get mcu reset_info)
     = 0xDEADBEEF
  /\ forall (mcu' : Mcu) (reset_info' : sResetBootupInfo),
      memfault_reboot_reason_get mcu' reset_info'
      = memfault_reboot_reason_get mcu reset_info.
Proof.
  repeat split.
Qed.

(** ** Boot sequencer *)

(** A call that starts a program is logged and answered, and the program
    goes on with the answer. *)
Lemma handle_sdk_trigger (sdk : Sdk) (T U : Type) (e : sdkE T)
      (k : T -> itree sdkE U) (log : list sdk_call) :
  interp_state (handle_sdk sdk) (ITree.bind (ITree.trigger e) k) log
  ≈ interp_state (handle_sdk sdk) (k (sdk T e)) (log ++ [call e]).
Proof.
  rewrite interp_state_bind, interp_state_trigger.
  unfold handle_sdk. rewrite bind_ret_l. cbn. reflexivity.
Qed.

Ltac run_sdk_calls :=
  repeat (rewrite ?bind_bind, ?bind_ret_l;
          rewrite handle_sdk_trigger; cbn [app]);
  rewrite ?bind_ret_l, interp_state_ret.

(** C2, as the code has it: whatever the SDK answers, and with or without
    the metrics component, [memfault_platform_boot] makes exactly the calls
    of steps (1) to (7) in that order: the RTOS port boot; the reboot
    tracking boot on the persistent buffer with this boot's reboot reason;
    the event storage boot, whose handle goes to the trace-event boot; the
    collection of the reset info into that storage; with metrics, the read
    of the crash count and the metrics boot with it; the log storage boot;
    the build info, the device info and the ready line.  It then returns 0,
    whatever statuses the sub-inits reported. *)
Theorem memfault_platform_boot_order (sdk : Sdk) (mcu : Mcu)
        (metrics_component : bool) :
  run_boot sdk mcu metrics_component
  ≈ Ret (boot_calls sdk metrics_component, 0).
Proof.
  unfold run_boot, memfault_platform_boot,
    memfault_platform_reboot_tracking_boot.
  destruct metrics_component; run_sdk_calls; reflexivity.
Qed.

(** C2, as stated, fails: when the trace-event boot reports the status
    [-1], the boot makes that call, and still returns 0 and not [-1]. *)
Lemma memfault_platform_boot_drops_status :
  let mcu := {| reset_cause_register := 0 |} in
  sdk_trace_event_fails Z (memfault_trace_event_boot 0x20001000) = -1
  /\ In (call (memfault_trace_event_boot 0x20001000))
        (boot_calls sdk_trace_event_fails false)
  /\ run_boot sdk_trace_event_fails mcu false
     ≈ Ret (boot_calls sdk_trace_event_fails false, 0)
  /\ ~ (exists calls,
          run_boot sdk_trace_event_fails mcu false ≈ Ret (calls, -1)).
Proof.
  intros mcu.
  assert (Hrun : run_boot sdk_trace_event_fails mcu false
                 ≈ Ret (boot_calls sdk_trace_event_fails false, 0)).
  { unfold run_boot, memfault_platform_boot,
      memfault_platform_reboot_tracking_boot.
    run_sdk_calls. reflexivity. }
  split; [reflexivity |]. split; [cbn; tauto |]. split; [exact Hrun |].
  intros [calls Hcalls]. rewrite Hrun in Hcalls.
  apply eutt_inv_Ret in Hcalls. discriminate.
Qed.

(** ** Post-crash reboot *)

(** A loop whose condition is the constant true has no way out: no run of
    it ends with a result. *)
Lemma while_true_no_leaf (E : Type -> Type) (body : itree E unit) (r : unit) :
  ~ Leaf r (while E (Ret true) body).
Proof.
  unfold while. intros Hleaf.
  refine (Leaf_iter_inv _ tt (fun _ => True) (fun _ => False) _ I r Hleaf).
  intros i x _ Hx. rewrite bind_ret_l in Hx.
  apply Leaf_bind_inv in Hx. destruct Hx as (u & _ & Hx).
  apply Leaf_Ret_inv in Hx. subst x. now constructor.
Qed.

(** C9, the code at a call: [memfault_platform_reboot] takes silent steps
    for ever.  No execution of it reaches a return, and none requests the
    platform reset either: the function is not a program that resets and
    then does not fall through, it only never falls through. *)
Theorem memfault_platform_reboot_spins :
  (forall E : Type -> Type, memfault_platform_reboot E ≈ ITree.spin)
  /\ (forall (E : Type -> Type) (r : unit),
         ~ Leaf r (memfault_platform_reboot E))
  /\ (forall k : Empty_set -> itree platformE unit,
         ~ memfault_platform_reboot platformE ≈ Vis NVIC_SystemReset k).
Proof.
  assert (Hspin : forall E, memfault_platform_reboot E ≈ ITree.spin).
  { intros E. unfold memfault_platform_reboot, while.
    einit. ecofix CIH.
    rewrite unfold_iter, !bind_ret_l.
    rewrite (itree_eta ITree.spin). cbn.
    etau. }
  split; [exact Hspin |]. split.
  - intros E r. apply while_true_no_leaf.
  - intros k Hreset. rewrite Hspin in Hreset.
    exact (eutt_spin_Vis_abs _ _ Hreset).
Qed.

(** ** Sanity checks of the models *)

(** The regular expressions reject what they should: the empty text, a
    blank, and, for serials, the dot and the plus that hardware versions
    admit. *)
Example device_serial_regex_rejects :
  matches device_serial_regex (chars "") = false
  /\ matches device_serial_regex (chars "DEMO SERIAL") = false
  /\ matches device_serial_regex (chars "rev1.2+a") = false
  /\ matches hardware_version_regex (chars "rev1.2+a") = true
  /\ matches hardware_version_regex (chars "rev 1") = false.
Proof.
  repeat split; vm_compute; reflexivity.
Qed.

(** An entry whose upper bound wraps around is where the scan and the
    specification's interval part: the scan finds the region empty. *)
Example sanitize_scan_wrapping_region :
  let table := [mem_region.make 0xFFFFFF00 0x200] in
  sanitize_scan table 0xFFFFFF80 0x10 = 0
  /\ sanitize_spec table 0xFFFFFF80 0x10 = 0x10.
Proof.
  split; vm_compute; reflexivity.
Qed.

(** A message with a terminator inside is printed up to it. *)
Example memfault_platform_log_raw_example :
  stdout (memfault_platform_log_raw
            (chars "up" ++ [NUL] ++ chars "time")
            {| s_min_log_level := 1; stdout := [] |})
  = chars "up" ++ [newline].
Proof.
  vm_compute. reflexivity.
Qed.

(** * Further properties *)

(** ** Memory range sanitizer, over any region table *)

Lemma to_uint32_range (z : Z) : is_uint32 (to_uint32 z).
Proof.
  unfold is_uint32, UINT32_MAX, to_uint32.
  pose proof (Z.mod_pos_bound z (2 ^ 32) eq_refl). lia.
Qed.

(** An entry whose end lies beyond the last address has a wrapped upper
    bound below its start, and the test of the loop fails on it. *)
Lemma scan_test_wrapping (region : mem_region.t) (addr : Z) :
  region_uint32 region ->
  UINT32_MAX < mem_region.start_addr region + mem_region.length region ->
  (to_uint32 addr >=? mem_region.start_addr region)
  && (to_uint32 addr
      <? to_uint32 (mem_region.start_addr region + mem_region.length region))
  = false.
Proof.
  intros [Hs Hl] Hwrap. unfold is_uint32, UINT32_MAX in *.
  assert (Hupper : to_uint32 (mem_region.start_addr region
                              + mem_region.length region)
                   = mem_region.start_addr region + mem_region.length region
                     - 2 ^ 32).
  { unfold to_uint32. symmetry.
    apply (Z.mod_unique _ _ 1); lia. }
  rewrite Hupper. apply andb_false_iff.
  destruct (Z.geb_spec (to_uint32 addr) (mem_region.start_addr region));
    [right | left; reflexivity].
  apply Z.ltb_ge. lia.
Qed.

(** X1: whatever the region table holds, the scan answers a count between
    0 and the desired length, provided that length is not negative. *)
Theorem sanitize_scan_bounds (regions : list mem_region.t)
        (start_addr desired_size : Z) :
  0 <= desired_size ->
  0 <= sanitize_scan regions start_addr desired_size <= desired_size.
Proof.
  intros Hd. induction regions as [| region rest IH]; cbn [sanitize_scan].
  - lia.
  - destruct (_ && _); [| exact IH].
    rewrite MEMFAULT_MIN_min.
    pose proof (to_uint32_range
                  (to_uint32 (mem_region.start_addr region
                              + mem_region.length region)
                   - to_uint32 start_addr)) as Hr.
    unfold is_uint32 in Hr. lia.
Qed.

Lemma sanitize_scan_bounds_witness :
  0 <= 0x40
  /\ 0 <= sanitize_scan [mem_region.make 0xFFFFFF00 0x200;
                         mem_region.make 0x20000000 0x30]
                        0x20000010 0x40 <= 0x40.
Proof.
  assert (Hd : 0 <= 0x40) by lia.
  split; [exact Hd |].
  exact (sanitize_scan_bounds _ 0x20000010 0x40 Hd).
Defined.

(** X2: the bytes the scan reports lie inside one region of the table.
    When the table's entries are 32-bit values and the answer for a 32-bit
    address is positive, some entry starts at or below the address and ends
    at or beyond the last byte reported; this holds for entries whose end
    would wrap around as well, since the scan never matches them. *)
Theorem sanitize_scan_within_region (regions : list mem_region.t)
        (start_addr desired_size : Z) :
  Forall region_uint32 regions ->
  is_uint32 start_addr ->
  0 < sanitize_scan regions start_addr desired_size ->
  exists region,
    In region regions
    /\ mem_region.start_addr region <= start_addr
    /\ start_addr + sanitize_scan regions start_addr desired_size
       <= mem_region.start_addr region + mem_region.length region.
Proof.
  intros Hregions Haddr.
  induction Hregions as [| region rest Hregion _ IH]; cbn [sanitize_scan].
  - lia.
  - destruct (Z_le_gt_dec (mem_region.start_addr region
                           + mem_region.length region) UINT32_MAX)
      as [Hfit | Hwrap].
    + assert (Hfits : region_fits region).
      { destruct Hregion as [Hs Hl]. unfold is_uint32 in *.
        unfold region_fits. lia. }
      rewrite (scan_test_contains start_addr Haddr region Hfits).
      destruct (region_contains start_addr region) eqn:Hin.
      * rewrite (scan_remaining start_addr Haddr region Hfits Hin).
        rewrite MEMFAULT_MIN_min. intros _. exists region.
        unfold region_contains in Hin. apply andb_true_iff in Hin.
        destruct Hin as [Hlo _]. apply Z.leb_le in Hlo.
        split; [now left | lia].
      * intros Hpos. destruct (IH Hpos) as (r & Hr & Hbounds).
        exists r. split; [now right | exact Hbounds].
    + rewrite scan_test_wrapping by (assumption || lia).
      intros Hpos. destruct (IH Hpos) as (r & Hr & Hbounds).
      exists r. split; [now right | exact Hbounds].
Qed.

Lemma sanitize_scan_within_region_witness :
  let table := [mem_region.make 0xFFFFFF00 0x200;
                mem_region.make 0x20000000 0x30] in
  Forall region_uint32 table
  /\ is_uint32 0x20000010
  /\ 0 < sanitize_scan table 0x20000010 0x40
  /\ exists region,
      In region table
      /\ mem_region.start_addr region <= 0x20000010
      /\ 0x20000010 + sanitize_scan table 0x20000010 0x40
         <= mem_region.start_addr region + mem_region.length region.
Proof.
  intros table.
  assert (Ht : Forall region_uint32 table).
  { repeat constructor; cbn; unfold UINT32_MAX; lia. }
  assert (Ha : is_uint32 0x20000010) by (unfold is_uint32, UINT32_MAX; lia).
  assert (Hp : 0 < sanitize_scan table 0x20000010 0x40)
    by (vm_compute; reflexivity).
  split; [exact Ht | split; [exact Ha | split; [exact Hp |]]].
  exact (sanitize_scan_within_region table 0x20000010 0x40 Ht Ha Hp).
Defined.

(** X3: an entry whose end lies beyond the last 32-bit address, one that
    reaches the top of the address space included, is dead: the scan
    answers as if the entry were not in the table, for every address. *)
Theorem sanitize_scan_skips_wrapping (region : mem_region.t)
        (rest : list mem_region.t) (start_addr desired_size : Z) :
  region_uint32 region ->
  UINT32_MAX < mem_region.start_addr region + mem_region.length region ->
  sanitize_scan (region :: rest) start_addr desired_size
  = sanitize_scan rest start_addr desired_size.
Proof.
  intros Hregion Hwrap. cbn [sanitize_scan].
  now rewrite scan_test_wrapping.
Qed.

Lemma sanitize_scan_skips_wrapping_witness :
  let sram_to_top := mem_region.make 0xFFFF0000 0x10000 in
  region_uint32 sram_to_top
  /\ UINT32_MAX < mem_region.start_addr sram_to_top
                  + mem_region.length sram_to_top
  /\ sanitize_scan [sram_to_top] 0xFFFF0100 0x10 = 0.
Proof.
  intros sram_to_top.
  assert (Hr : region_uint32 sram_to_top)
    by (split; cbn; unfold is_uint32, UINT32_MAX; lia).
  assert (Hw : UINT32_MAX < mem_region.start_addr sram_to_top
                            + mem_region.length sram_to_top)
    by (cbn; unfold UINT32_MAX; lia).
  split; [exact Hr | split; [exact Hw |]].
  exact (sanitize_scan_skips_wrapping sram_to_top [] 0xFFFF0100 0x10 Hr Hw).
Defined.

(** X4: sanitizing is idempotent: asking again for the count just granted
    grants the same count, for every table, address and length. *)
Theorem sanitize_scan_idempotent (regions : list mem_region.t)
        (start_addr desired_size : Z) :
  sanitize_scan regions start_addr
                (sanitize_scan regions start_addr desired_size)
  = sanitize_scan regions start_addr desired_size.
Proof.
  assert (Hnone : forall d,
             (forall d', sanitize_scan regions start_addr d'
                         = sanitize_scan regions start_addr d)
             \/ exists left_in_region,
                 forall d', sanitize_scan regions start_addr d'
                            = MEMFAULT_MIN d' left_in_region).
  { intros d. induction regions as [| region rest IH]; cbn [sanitize_scan].
    - now left.
    - destruct (_ && _); [right; eexists; reflexivity | exact IH]. }
  destruct (Hnone desired_size) as [Hconst | [x Hmin]].
  - apply Hconst.
  - rewrite !Hmin. unfold MEMFAULT_MIN.
    destruct (Z.ltb_spec desired_size x) as [Hlt | Hge].
    + apply Z.ltb_lt in Hlt. now rewrite Hlt.
    + now rewrite Z.ltb_irrefl.
Qed.

(** X5: a larger request is never granted less: the answer grows with the
    desired length. *)
Theorem sanitize_scan_monotone (regions : list mem_region.t)
        (start_addr smaller larger : Z) :
  smaller <= larger ->
  sanitize_scan regions start_addr smaller
  <= sanitize_scan regions start_addr larger.
Proof.
  intros Hle. induction regions as [| region rest IH]; cbn [sanitize_scan].
  - lia.
  - destruct (_ && _); [| exact IH]. rewrite !MEMFAULT_MIN_min. lia.
Qed.

Lemma sanitize_scan_monotone_witness :
  0x10 <= 0x200
  /\ sanitize_scan [mem_region.make 0x1000 0x100] 0x1080 0x10
     <= sanitize_scan [mem_region.make 0x1000 0x100] 0x1080 0x200.
Proof.
  assert (Hle : 0x10 <= 0x200) by lia.
  split; [exact Hle |].
  exact (sanitize_scan_monotone _ 0x1080 0x10 0x200 Hle).
Defined.

(** X6: the first match wins.  In a table of fitting entries, the first
    entry that contains the address decides the answer, the desired length
    clamped to the end of that entry, whatever comes after it in the table:
    a later entry that contains the address too, and reaches further, is
    not consulted. *)
Theorem sanitize_scan_first_match (before after : list mem_region.t)
        (region : mem_region.t) (start_addr desired_size : Z) :
  is_uint32 start_addr ->
  Forall region_fits before ->
  region_fits region ->
  Forall (fun earlier => region_contains start_addr earlier = false) before ->
  region_contains start_addr region = true ->
  sanitize_scan (before ++ region :: after) start_addr desired_size
  = Z.min desired_size
          (mem_region.start_addr region + mem_region.length region
           - start_addr).
Proof.
  intros Haddr Hbefore Hfits Hmiss Hin.
  induction Hbefore as [| earlier before Hearlier _ IH];
    cbn [app sanitize_scan].
  - rewrite (scan_test_contains start_addr Haddr region Hfits), Hin.
    rewrite (scan_remaining start_addr Haddr region Hfits Hin).
    apply MEMFAULT_MIN_min.
  - inversion Hmiss as [| ? ? Hfirst Hrest]; subst.
    rewrite (scan_test_contains start_addr Haddr earlier Hearlier), Hfirst.
    now apply IH.
Qed.

Lemma sanitize_scan_first_match_witness :
  let small := mem_region.make 0x1000 0x10 in
  let large := mem_region.make 0x1000 0x100 in
  is_uint32 0x1008
  /\ Forall region_fits []
  /\ region_fits small
  /\ Forall (fun earlier => region_contains 0x1008 earlier = false) []
  /\ region_contains 0x1008 small = true
  /\ sanitize_scan [small; large] 0x1008 0x80 = 0x8
  /\ sanitize_scan [large; small] 0x1008 0x80 = 0x80.
Proof.
  intros small large.
  assert (Ha : is_uint32 0x1008) by (unfold is_uint32, UINT32_MAX; lia).
  assert (Hf : region_fits small)
    by (unfold region_fits, UINT32_MAX; cbn; lia).
  assert (Hin : region_contains 0x1008 small = true) by reflexivity.
  split; [exact Ha |]. split; [constructor |]. split; [exact Hf |].
  split; [constructor |]. split; [exact Hin |].
  split; [| vm_compute; reflexivity].
  exact (sanitize_scan_first_match [] [large] small 0x1008 0x80
           Ha (Forall_nil _) Hf (Forall_nil _) Hin).
Defined.

(** X7: what a zero answer means.  Over a table of fitting entries and for
    a 32-bit address, the scan answers 0 exactly when no byte was asked for
    or no entry contains the address. *)
Theorem sanitize_scan_zero (regions : list mem_region.t)
        (start_addr desired_size : Z) :
  is_uint32 start_addr ->
  Forall region_fits regions ->
  sanitize_scan regions start_addr desired_size = 0
  <-> desired_size = 0
      \/ Forall (fun region => region_contains start_addr region = false)
                regions.
Proof.
  intros Haddr Hfit.
  rewrite (sanitize_scan_spec start_addr desired_size Haddr regions Hfit).
  unfold sanitize_spec.
  destruct (find (region_contains start_addr) regions) as [region |] eqn:Hf.
  - apply find_some in Hf. destruct Hf as [Hmember Hin].
    assert (Hleft : 0 < mem_region.start_addr region
                        + mem_region.length region - start_addr).
    { unfold region_contains in Hin. apply andb_true_iff in Hin.
      destruct Hin as [_ Hhi]. apply Z.ltb_lt in Hhi. lia. }
    split.
    + intros Hzero. left. lia.
    + intros [-> | Hnone]; [lia |].
      rewrite Forall_forall in Hnone. specialize (Hnone region Hmember).
      congruence.
  - split; [| reflexivity]. intros _. right.
    apply Forall_forall. intros region Hmember.
    exact (find_none _ _ Hf region Hmember).
Qed.

Lemma sanitize_scan_zero_witness :
  let table := [mem_region.make 0x1000 0x100] in
  is_uint32 0x2000
  /\ Forall region_fits table
  /\ sanitize_scan table 0x2000 0x10 = 0.
Proof.
  intros table.
  assert (Ha : is_uint32 0x2000) by (unfold is_uint32, UINT32_MAX; lia).
  assert (Hf : Forall region_fits table)
    by (repeat constructor; cbn; unfold UINT32_MAX; lia).
  split; [exact Ha | split; [exact Hf |]].
  apply (proj2 (sanitize_scan_zero table 0x2000 0x10 Ha Hf)).
  right. repeat constructor.
Defined.

(** ** Logging sink: the raw entry point, bounds and sequences of calls *)

Lemma prv_level_to_str_length (level : eMemfaultPlatformLogLevel) :
  List.length (chars (prv_level_to_str level)) = 4%nat.
Proof.
  unfold prv_level_to_str.
  repeat match goal with |- context [if ?b then _ else _] => destruct b end;
    reflexivity.
Qed.

(** What [%s] prints for the filled buffer is at most 127 characters. *)
Lemma c_str_log_buf_length (rendered : list ascii) :
  (List.length
     (c_str (vsnprintf MEMFAULT_DEBUG_LOG_BUFFER_SIZE_BYTES rendered))
   <= 127)%nat.
Proof.
  unfold MEMFAULT_DEBUG_LOG_BUFFER_SIZE_BYTES.
  rewrite <- (app_nil_r (vsnprintf 128 rendered)), c_str_vsnprintf.
  rewrite length_firstn. lia.
Qed.

(** The output of a call that passes the filter. *)
Lemma memfault_platform_log_stdout (level : eMemfaultPlatformLogLevel)
      (rendered : list ascii) (st : Console) :
  s_min_log_level st <= level ->
  stdout (memfault_platform_log level rendered st)
  = (stdout st ++ chars "MFLT:[" ++ chars (prv_level_to_str level)
            ++ chars "] ")
      ++ firstn 127 (c_str rendered) ++ [newline].
Proof.
  intros Hlevel. unfold memfault_platform_log.
  replace (level >=? s_min_log_level st) with true
    by (symmetry; rewrite Z.geb_leb; apply Z.leb_le; exact Hlevel).
  unfold printf, log_line, MEMFAULT_DEBUG_LOG_BUFFER_SIZE_BYTES. cbn [stdout].
  rewrite <- (app_nil_r (vsnprintf 128 rendered)), c_str_vsnprintf.
  rewrite <- !app_assoc. reflexivity.
Qed.

(** X8: [memfault_platform_log_raw] is not filtered: whatever the minimum
    level, it appends the rendered message, cut to the 127 characters that
    fit the buffer, and a line break, with no prefix and no tag; the minimum
    level is left as it was. *)
Theorem memfault_platform_log_raw_emits (rendered : list ascii)
        (st : Console) :
  stdout (memfault_platform_log_raw rendered st)
  = stdout st ++ firstn 127 (c_str rendered) ++ [newline]
  /\ s_min_log_level (memfault_platform_log_raw rendered st)
     = s_min_log_level st.
Proof.
  unfold memfault_platform_log_raw, MEMFAULT_DEBUG_LOG_BUFFER_SIZE_BYTES.
  cbv zeta. rewrite <- (app_nil_r (vsnprintf 128 rendered)), c_str_vsnprintf.
  split; reflexivity.
Qed.

(** X9: the filtered entry point is the raw one behind a prefix: at a level
    that passes the filter, [memfault_platform_log] leaves the console as
    printing [MFLT:[tag] ] and then calling [memfault_platform_log_raw] on
    the same message does. *)
Theorem memfault_platform_log_as_raw (level : eMemfaultPlatformLogLevel)
        (rendered : list ascii) (st : Console) :
  s_min_log_level st <= level ->
  memfault_platform_log level rendered st
  = memfault_platform_log_raw
      rendered
      (printf (chars "MFLT:[" ++ chars (prv_level_to_str level) ++ chars "] ")
              st).
Proof.
  intros Hlevel. unfold memfault_platform_log.
  replace (level >=? s_min_log_level st) with true
    by (symmetry; rewrite Z.geb_leb; apply Z.leb_le; exact Hlevel).
  unfold memfault_platform_log_raw, printf, log_line. cbv zeta.
  cbn [s_min_log_level stdout]. f_equal.
  rewrite <- !app_assoc. reflexivity.
Qed.

Lemma memfault_platform_log_as_raw_witness :
  let st := {| s_min_log_level := 1; stdout := chars "boot" |} in
  s_min_log_level st <= 3
  /\ stdout (memfault_platform_log 3 (chars "fault") st)
     = stdout (memfault_platform_log_raw
                 (chars "fault")
                 {| s_min_log_level := 1;
                    stdout := chars "bootMFLT:[ERRO] " |}).
Proof.
  intros st.
  assert (Hlevel : s_min_log_level st <= 3) by (cbn; lia).
  split; [exact Hlevel |].
  exact (f_equal stdout
                 (memfault_platform_log_as_raw 3 (chars "fault") st Hlevel)).
Defined.

(** X10: a message that fits is printed whole: when the rendered message
    holds no NUL and at most 127 characters, a call at a level that passes
    the filter appends the prefix, the tag, the unchanged message and the
    line break. *)
Theorem memfault_platform_log_short_message
        (level : eMemfaultPlatformLogLevel) (rendered : list ascii)
        (st : Console) :
  s_min_log_level st <= level ->
  ~ In NUL rendered ->
  (List.length rendered <= 127)%nat ->
  stdout (memfault_platform_log level rendered st)
  = stdout st ++ chars "MFLT:[" ++ chars (prv_level_to_str level)
           ++ chars "] " ++ rendered ++ [newline].
Proof.
  intros Hlevel Hnul Hlen.
  rewrite memfault_platform_log_stdout by exact Hlevel.
  rewrite c_str_no_nul by exact Hnul.
  rewrite firstn_all2 by exact Hlen.
  rewrite <- !app_assoc. reflexivity.
Qed.

Lemma memfault_platform_log_short_message_witness :
  let st := {| s_min_log_level := 1; stdout := [] |} in
  s_min_log_level st <= 1
  /\ ~ In NUL (chars "Memfault Initialized!")
  /\ (List.length (chars "Memfault Initialized!") <= 127)%nat
  /\ stdout (memfault_platform_log 1 (chars "Memfault Initialized!") st)
     = chars "MFLT:[INFO] Memfault Initialized!" ++ [newline].
Proof.
  intros st.
  assert (Hlevel : s_min_log_level st <= 1) by (cbn; lia).
  assert (Hnul : ~ In NUL (chars "Memfault Initialized!")).
  { intros Hin. cbn in Hin.
    repeat (destruct Hin as [Hin | Hin]; [discriminate Hin |]).
    exact Hin. }
  assert (Hlen : (List.length (chars "Memfault Initialized!") <= 127)%nat)
    by (cbn; lia).
  split; [exact Hlevel | split; [exact Hnul | split; [exact Hlen |]]].
  exact (memfault_platform_log_short_message
           1 (chars "Memfault Initialized!") st Hlevel Hnul Hlen).
Defined.

(** X11: a call writes a bounded amount.  [memfault_platform_log] appends at
    most 140 characters to the output (nothing, or 12 of prefix and tag, at
    most 127 of message, and the line break) and [memfault_platform_log_raw]
    between 1 and 128, however long the rendered message is. *)
Theorem memfault_platform_log_output_bounded
        (level : eMemfaultPlatformLogLevel) (rendered : list ascii)
        (st : Console) :
  (List.length (stdout st)
   <= List.length (stdout (memfault_platform_log level rendered st))
   <= List.length (stdout st) + 140)%nat
  /\ (List.length (stdout st) + 1
      <= List.length (stdout (memfault_platform_log_raw rendered st))
      <= List.length (stdout st) + 128)%nat.
Proof.
  split.
  - destruct (Z_le_gt_dec (s_min_log_level st) level) as [Hpass | Hdrop].
    + rewrite memfault_platform_log_stdout by exact Hpass.
      rewrite !length_app, prv_level_to_str_length, length_firstn.
      pose proof (Nat.le_min_l 127 (List.length (c_str rendered))) as Hcut.
      remember (Nat.min 127 (List.length (c_str rendered))) as cut.
      cbn. lia.
    + unfold memfault_platform_log.
      replace (level >=? s_min_log_level st) with false; [lia |].
      symmetry. rewrite Z.geb_leb. apply Z.leb_gt. lia.
  - unfold memfault_platform_log_raw, printf. cbv zeta. cbn [stdout].
    pose proof (c_str_log_buf_length rendered).
    rewrite !length_app. cbn [List.length]. lia.
Qed.

(** X12: over any sequence of calls of the two logging entry points, the
    minimum level stays what it was and the output only grows: what had
    been written before the calls is still there, at the start. *)
Theorem serve_log_requests_invariant (requests : list log_request)
        (st : Console) :
  s_min_log_level (serve_log_requests requests st) = s_min_log_level st
  /\ exists appended,
      stdout (serve_log_requests requests st) = stdout st ++ appended.
Proof.
  unfold serve_log_requests. revert st.
  induction requests as [| request requests IH]; intros st; cbn [fold_left].
  - split; [reflexivity | exists []; now rewrite app_nil_r].
  - destruct (IH (serve_log_request st request)) as (Hlevel & more & Hout).
    assert (Hstep : s_min_log_level (serve_log_request st request)
                    = s_min_log_level st
                    /\ exists one,
                        stdout (serve_log_request st request)
                        = stdout st ++ one).
    { destruct request as [level rendered | rendered];
        cbn [serve_log_request].
      - unfold memfault_platform_log.
        destruct (level >=? s_min_log_level st).
        + split; [reflexivity | eexists; reflexivity].
        + split; [reflexivity | exists []; now rewrite app_nil_r].
      - split; [reflexivity | eexists; reflexivity]. }
    destruct Hstep as (Hlevel1 & one & Hout1).
    split; [congruence |].
    exists (one ++ more). rewrite Hout, Hout1. now rewrite app_assoc.
Qed.

(** X13: the tags identify the levels.  Each of the four tags is printed
    for one level only, and the sentinel [????] exactly for the levels that
    are none of the four; every tag is four characters long, so that the
    message always starts in the same column. *)
Theorem prv_level_to_str_tags (level : eMemfaultPlatformLogLevel) :
  (prv_level_to_str level = "DEBG"%string
   <-> level = kMemfaultPlatformLogLevel_Debug)
  /\ (prv_level_to_str level = "INFO"%string
      <-> level = kMemfaultPlatformLogLevel_Info)
  /\ (prv_level_to_str level = "WARN"%string
      <-> level = kMemfaultPlatformLogLevel_Warning)
  /\ (prv_level_to_str level = "ERRO"%string
      <-> level = kMemfaultPlatformLogLevel_Error)
  /\ (prv_level_to_str level = "????"%string
      <-> level < kMemfaultPlatformLogLevel_Debug
          \/ kMemfaultPlatformLogLevel_Error < level)
  /\ List.length (chars (prv_level_to_str level)) = 4%nat.
Proof.
  unfold prv_level_to_str, kMemfaultPlatformLogLevel_Debug,
    kMemfaultPlatformLogLevel_Info, kMemfaultPlatformLogLevel_Warning,
    kMemfaultPlatformLogLevel_Error.
  destruct (Z.eqb_spec level 0) as [-> | H0].
  { repeat split; (discriminate || lia || reflexivity || idtac). }
  destruct (Z.eqb_spec level 1) as [-> | H1].
  { repeat split; (discriminate || lia || reflexivity || idtac). }
  destruct (Z.eqb_spec level 2) as [-> | H2].
  { repeat split; (discriminate || lia || reflexivity || idtac). }
  destruct (Z.eqb_spec level 3) as [-> | H3].
  { repeat split; (discriminate || lia || reflexivity || idtac). }
  repeat split; (discriminate || lia || reflexivity || idtac).
Qed.

(** X14: no stack byte reaches the output.  Whatever the 128 bytes of the
    uninitialised local [log_buf] held before the call, after [vsnprintf]
    has stored into it the array is still 128 bytes long and the line
    [printf] builds from it is the one the call appends. *)
Theorem memfault_platform_log_ignores_stack
        (level : eMemfaultPlatformLogLevel) (rendered log_buf : list ascii)
        (st : Console) :
  List.length log_buf = MEMFAULT_DEBUG_LOG_BUFFER_SIZE_BYTES ->
  s_min_log_level st <= level ->
  let log_buf' :=
    stored (vsnprintf MEMFAULT_DEBUG_LOG_BUFFER_SIZE_BYTES rendered) log_buf in
  List.length log_buf' = MEMFAULT_DEBUG_LOG_BUFFER_SIZE_BYTES
  /\ printf (log_line s_log_prefix (prv_level_to_str level) log_buf') st
     = memfault_platform_log level rendered st.
Proof.
  intros Hbuf Hlevel log_buf'. subst log_buf'. unfold stored. split.
  - pose proof (vsnprintf_length MEMFAULT_DEBUG_LOG_BUFFER_SIZE_BYTES
                                 rendered).
    rewrite length_app, length_skipn, Hbuf. lia.
  - unfold memfault_platform_log.
    replace (level >=? s_min_log_level st) with true
      by (symmetry; rewrite Z.geb_leb; apply Z.leb_le; exact Hlevel).
    cbv zeta. unfold log_line, MEMFAULT_DEBUG_LOG_BUFFER_SIZE_BYTES.
    rewrite c_str_vsnprintf.
    rewrite <- (app_nil_r (vsnprintf 128 rendered)).
    rewrite c_str_vsnprintf. reflexivity.
Qed.

Lemma memfault_platform_log_ignores_stack_witness :
  let st := {| s_min_log_level := 1; stdout := [] |} in
  let log_buf := repeat "#"%char 128 in
  List.length log_buf = MEMFAULT_DEBUG_LOG_BUFFER_SIZE_BYTES
  /\ s_min_log_level st <= 2
  /\ printf (log_line s_log_prefix (prv_level_to_str 2)
                      (stored (vsnprintf MEMFAULT_DEBUG_LOG_BUFFER_SIZE_BYTES
                                         (chars "low heap"))
                              log_buf))
            st
     = memfault_platform_log 2 (chars "low heap") st.
Proof.
  intros st log_buf.
  assert (Hbuf : List.length log_buf = MEMFAULT_DEBUG_LOG_BUFFER_SIZE_BYTES)
    by reflexivity.
  assert (Hlevel : s_min_log_level st <= 2) by (cbn; lia).
  split; [exact Hbuf | split; [exact Hlevel |]].
  exact (proj2 (memfault_platform_log_ignores_stack
                  2 (chars "low heap") log_buf st Hbuf Hlevel)).
Defined.

(** ** Boot and reboot, composed with what surrounds them *)

Lemma handle_stateful_sdk_trigger (sdk : StatefulSdk) (T U : Type)
      (e : sdkE T) (k : T -> itree sdkE U) (log : list sdk_call) :
  interp_state (handle_stateful_sdk sdk) (ITree.bind (ITree.trigger e) k) log
  ≈ interp_state (handle_stateful_sdk sdk) (k (sdk log T e))
                 (log ++ [call e]).
Proof.
  rewrite interp_state_bind, interp_state_trigger.
  unfold handle_stateful_sdk. rewrite bind_ret_l. cbn. reflexivity.
Qed.

Ltac normalise_binds :=
  repeat first [rewrite bind_bind | rewrite bind_ret_l].

Ltac run_stateful_sdk_calls :=
  repeat (normalise_binds; rewrite handle_stateful_sdk_trigger; cbn [app]);
  normalise_binds; rewrite interp_state_ret.

(** X15: the boot entry point has no latch.  Called twice in a row, against
    an SDK that may answer differently the second time, it makes every SDK
    call of a boot a second time, in the same order, after those of the
    first, re-initialising reboot tracking, event storage and log storage
    on the same buffers; both calls return 0. *)
Theorem boot_twice_repeats_calls (sdk : StatefulSdk) (mcu : Mcu)
        (metrics_component : bool) :
  interp_state (handle_stateful_sdk sdk) (boot_twice mcu metrics_component) []
  ≈ Ret (let first := boot_calls_after sdk [] metrics_component in
         first ++ boot_calls_after sdk first metrics_component,
         (0, 0)).
Proof.
  unfold boot_twice, memfault_platform_boot,
    memfault_platform_reboot_tracking_boot.
  destruct metrics_component; run_stateful_sdk_calls; reflexivity.
Qed.

(** The reboot routine is silent divergence, and so is silent divergence
    followed by anything. *)
Lemma memfault_platform_reboot_silent (E : Type -> Type) :
  memfault_platform_reboot E ≈ ITree.spin.
Proof.
  unfold memfault_platform_reboot, while.
  einit. ecofix CIH.
  rewrite unfold_iter, !bind_ret_l.
  rewrite (itree_eta ITree.spin). cbn.
  etau.
Qed.

Lemma bind_spin (E : Type -> Type) (R S : Type) (k : R -> itree E S) :
  ITree.bind (@ITree.spin E R) k ≈ ITree.spin.
Proof.
  einit. ecofix CIH.
  rewrite (itree_eta (@ITree.spin E R)), (itree_eta (@ITree.spin E S)). cbn.
  rewrite bind_tau. etau.
Qed.

(** X16: what follows a call of [memfault_platform_reboot] is never run:
    the call followed by any code at all takes silent steps for ever, so
    it performs none of the actions of that code and yields no result. *)
Theorem memfault_platform_reboot_cuts (E : Type -> Type) (R : Type)
        (rest : unit -> itree E R) :
  ITree.bind (memfault_platform_reboot E) rest ≈ ITree.spin
  /\ forall r : R, ~ Leaf r (ITree.bind (memfault_platform_reboot E) rest).
Proof.
  split.
  - rewrite memfault_platform_reboot_silent. apply bind_spin.
  - intros r Hleaf. apply Leaf_bind_inv in Hleaf.
    destruct Hleaf as (u & Hu & _).
    exact (while_true_no_leaf E (Ret tt) u Hu).
Qed.
